(** * Verification of the bloom filter of sgoedecke/bloom (src/main.go)

    src/main.go holds two versions of the program, each a [package main]
    with its own [BloomFilter] and [ArrayWithBloomFilter]:
    - [Sparse]: the murmur3 variant (lines 1-95), positions are
      [murmur3.Sum64WithSeed] with seeds 1 and 2, bits live in a
      [bitarray.NewSparseBitArray()];
    - [Fixed]: the fixed-array variant (lines 97-203), positions are the
      first two decimal digits of two byte sums, bits live in a [[99]bool].

    Go strings are byte strings: a Go [string] is modelled as a Rocq
    [string] and the conversion [[]byte(value)] as [list_byte_of_string].
    A Go panic is [None] in the option monad. *)

From Stdlib Require Import ZArith List String Ascii Lia.
From Stdlib Require Import Strings.Byte.
From stdpp Require Import base gmap list.

Import ListNotations.
Open Scope Z_scope.

(** ** Unsigned 64-bit arithmetic (Go [uint64]) *)
Module U64.

Definition modulus : Z := 2 ^ 64.
Definition wrap (z : Z) : Z := z mod modulus.
Definition add (a b : Z) : Z := wrap (a + b).
Definition mul (a b : Z) : Z := wrap (a * b).
Definition xor (a b : Z) : Z := Z.lxor a b.
(** [bits.RotateLeft64 x r] for [0 < r < 64] *)
Definition rotl (x r : Z) : Z :=
  wrap (Z.lor (Z.shiftl x r) (Z.shiftr x (64 - r))).

End U64.

(** ** murmur3 (github.com/spaolacci/murmur3), 128-bit x64 variant.
    [Sum64WithSeed data seed] is the first half [h1] of
    [Sum128WithSeed data seed]. *)
Module Murmur3.

Definition c1_128 : Z := 0x87c37b91114253d5.
Definition c2_128 : Z := 0x4cf5ad432745937f.

Definition byteZ (b : byte) : Z := Z.of_N (Byte.to_N b).

(** little-endian [uint64] of (up to) eight bytes, as
    [k ^= uint64(tail[i]) << (8*i)] *)
Fixpoint le64_from (i : Z) (bs : list byte) : Z :=
  match bs with
  | [] => 0
  | b :: bs' => Z.lxor (Z.shiftl (byteZ b) (8 * i)) (le64_from (i + 1) bs')
  end.
Definition le64 (bs : list byte) : Z := le64_from 0 bs.

Definition fmix64 (k : Z) : Z :=
  let k := U64.xor k (Z.shiftr k 33) in
  let k := U64.mul k 0xff51afd7ed558ccd in
  let k := U64.xor k (Z.shiftr k 33) in
  let k := U64.mul k 0xc4ceb9fe1a85ec53 in
  U64.xor k (Z.shiftr k 33).

(** one 16-byte block of [digest128.bmix] *)
Definition mix_block (h1 h2 k1 k2 : Z) : Z * Z :=
  let k1 := U64.mul k1 c1_128 in
  let k1 := U64.rotl k1 31 in
  let k1 := U64.mul k1 c2_128 in
  let h1 := U64.xor h1 k1 in
  let h1 := U64.rotl h1 27 in
  let h1 := U64.add h1 h2 in
  let h1 := U64.add (U64.mul h1 5) 0x52dce729 in
  let k2 := U64.mul k2 c2_128 in
  let k2 := U64.rotl k2 33 in
  let k2 := U64.mul k2 c1_128 in
  let h2 := U64.xor h2 k2 in
  let h2 := U64.rotl h2 31 in
  let h2 := U64.add h2 h1 in
  let h2 := U64.add (U64.mul h2 5) 0x38495ab5 in
  (h1, h2).

(** [digest128.bmix]: consume every full 16-byte block, return the
    state and the tail *)
Fixpoint bmix (h1 h2 : Z) (p : list byte) : Z * Z * list byte :=
  match p with
  | b0 :: b1 :: b2 :: b3 :: b4 :: b5 :: b6 :: b7 ::
    b8 :: b9 :: b10 :: b11 :: b12 :: b13 :: b14 :: b15 :: rest =>
      let '(h1', h2') :=
        mix_block h1 h2 (le64 [b0; b1; b2; b3; b4; b5; b6; b7])
                        (le64 [b8; b9; b10; b11; b12; b13; b14; b15]) in
      bmix h1' h2' rest
  | _ => (h1, h2, p)
  end.

(** the [switch len(d.tail) & 15] of [digest128.Sum128] with its
    fallthroughs: bytes 8..14 go to [k2] and [h2], bytes 0..7 to [k1]
    and [h1] *)
Definition mix_tail (h1 h2 : Z) (tail : list byte) : Z * Z :=
  let h2 :=
    match skipn 8 tail with
    | [] => h2
    | hi =>
        let k2 := le64 hi in
        let k2 := U64.mul k2 c2_128 in
        let k2 := U64.rotl k2 33 in
        let k2 := U64.mul k2 c1_128 in
        U64.xor h2 k2
    end in
  let h1 :=
    match firstn 8 tail with
    | [] => h1
    | lo =>
        let k1 := le64 lo in
        let k1 := U64.mul k1 c1_128 in
        let k1 := U64.rotl k1 31 in
        let k1 := U64.mul k1 c2_128 in
        U64.xor h1 k1
    end in
  (h1, h2).

Definition Sum128WithSeed (data : list byte) (seed : Z) : Z * Z :=
  let '(h1, h2, tail) := bmix seed seed data in
  let '(h1, h2) := mix_tail h1 h2 tail in
  let clen := Z.of_nat (length data) in
  let h1 := U64.xor h1 clen in
  let h2 := U64.xor h2 clen in
  let h1 := U64.add h1 h2 in
  let h2 := U64.add h2 h1 in
  let h1 := fmix64 h1 in
  let h2 := fmix64 h2 in
  let h1 := U64.add h1 h2 in
  let h2 := U64.add h2 h1 in
  (h1, h2).

Definition Sum64WithSeed (data : list byte) (seed : Z) : Z :=
  fst (Sum128WithSeed data seed).

End Murmur3.

(** ** Operations on one filter: [f.Set(d)] and [f.Test(d)] *)
Inductive op :=
| OpSet (d : list byte)
| OpTest (d : list byte).

Definition op_data (o : op) : list byte :=
  match o with OpSet d => d | OpTest d => d end.

(** ** The murmur3 variant (src/main.go, lines 1-95) *)
Module Sparse.

(** [bitarray.BitArray] built by [NewSparseBitArray]: the set of
    positions whose bit is 1. Its [SetBit] and [GetBit] never fail on a
    sparse array, so the ignored errors are always nil. *)
Record BloomFilter := mkBloomFilter { bits : gset Z }.

Definition SetBit (ba : gset Z) (pos : Z) : gset Z := {[pos]} ∪ ba.
Definition GetBit (ba : gset Z) (pos : Z) : bool := bool_decide (pos ∈ ba).

Definition NewBloomFilter : BloomFilter := mkBloomFilter ∅.

(** the receiver [f] is not read *)
Definition getPositions (f : BloomFilter) (data : list byte) : list Z :=
  let p1 := Murmur3.Sum64WithSeed data 1 in
  let p2 := Murmur3.Sum64WithSeed data 2 in
  [p1; p2].

Fixpoint set_loop (ba : gset Z) (ps : list Z) : gset Z :=
  match ps with
  | [] => ba
  | pos :: ps' => set_loop (SetBit ba pos) ps'
  end.

(** [f.Set(data)] mutates [f.bits] and returns [f] *)
Definition Set_ (f : BloomFilter) (data : list byte) : BloomFilter :=
  mkBloomFilter (set_loop (bits f) (getPositions f data)).

(** the loop of [Test], returning [false] at the first unset bit *)
Fixpoint test_loop (ba : gset Z) (ps : list Z) : bool :=
  match ps with
  | [] => true
  | pos :: ps' => if negb (GetBit ba pos) then false else test_loop ba ps'
  end.

Definition Test (f : BloomFilter) (data : list byte) : bool :=
  test_loop (bits f) (getPositions f data).

(** [Set] applied to each input in turn *)
Fixpoint Set_all (f : BloomFilter) (ds : list (list byte)) : BloomFilter :=
  match ds with
  | [] => f
  | d :: ds' => Set_all (Set_ f d) ds'
  end.

Record ArrayWithBloomFilter := mkArray {
  array : list string;
  filter : BloomFilter
}.

Definition NewArrayWithBloomFilter : ArrayWithBloomFilter :=
  mkArray [] NewBloomFilter.

Definition ArraySet (a : ArrayWithBloomFilter) (value : string)
  : ArrayWithBloomFilter :=
  let f := Set_ (filter a) (list_byte_of_string value) in
  mkArray (array a ++ [value]) f.

(** the manual scan: [true] at the first [el == value] *)
Fixpoint scan (arr : list string) (value : string) : bool :=
  match arr with
  | [] => false
  | el :: arr' => if String.eqb el value then true else scan arr' value
  end.

Definition ArrayTest (a : ArrayWithBloomFilter) (value : string) : bool :=
  let hasElement := Test (filter a) (list_byte_of_string value) in
  if negb hasElement then false else scan (array a) value.

(** a collection after [Set] was called with each value in turn *)
Fixpoint ArraySet_all (a : ArrayWithBloomFilter) (vs : list string)
  : ArrayWithBloomFilter :=
  match vs with
  | [] => a
  | v :: vs' => ArraySet_all (ArraySet a v) vs'
  end.

(** run a sequence of operations; the results of the [Test] calls *)
Fixpoint run (f : BloomFilter) (ops : list op) : BloomFilter * list bool :=
  match ops with
  | [] => (f, [])
  | OpSet d :: ops' => run (Set_ f d) ops'
  | OpTest d :: ops' => let '(f', rs) := run f ops' in (f', Test f d :: rs)
  end.

End Sparse.

(** ** Go [int] (64-bit) and [strconv] *)
Module GoInt.

(** two's complement wrap-around of Go's 64-bit [int] *)
Definition wrap (z : Z) : Z := (z + 2 ^ 63) mod 2 ^ 64 - 2 ^ 63.

Definition digit_char (d : Z) : ascii := ascii_of_nat (Z.to_nat (48 + d)).

(** decimal digits of a non-negative number, most significant first;
    [fuel] bounds the number of digits *)
Fixpoint utoa_aux (fuel : nat) (n : Z) (acc : string) : string :=
  match fuel with
  | O => acc
  | S fuel' =>
      let acc' := String (digit_char (n mod 10)) acc in
      if n <? 10 then acc' else utoa_aux fuel' (n / 10) acc'
  end.

Definition utoa (n : Z) : string := utoa_aux (S (Z.to_nat (Z.log2_up (n + 1)))) n EmptyString.

(** [strconv.Itoa] *)
Definition Itoa (z : Z) : string :=
  if z <? 0 then String "-" (utoa (- z)) else utoa z.

(** Go's [s[:2]]: panics when [len(s) < 2] *)
Definition slice2 (s : string) : option string :=
  if (String.length s <? 2)%nat then None else Some (substring 0 2 s).

Definition digit_val (c : ascii) : option Z :=
  let d := Z.of_nat (nat_of_ascii c) - 48 in
  if (0 <=? d) && (d <=? 9) then Some d else None.

Fixpoint atoi_digits (n : Z) (s : string) : option Z :=
  match s with
  | EmptyString => Some n
  | String c s' =>
      match digit_val c with
      | Some d => atoi_digits (n * 10 + d) s'
      | None => None
      end
  end.

(** the value returned by [strconv.Atoi] (its fast path for strings of
    1 to 18 bytes, the only ones the program passes): an optional sign
    and decimal digits; on a syntax error Atoi returns 0 *)
Definition Atoi (s : string) : Z :=
  match s with
  | EmptyString => 0
  | String c rest =>
      if Ascii.eqb c "-" || Ascii.eqb c "+" then
        match rest with
        | EmptyString => 0
        | _ => match atoi_digits 0 rest with
               | Some n => if Ascii.eqb c "-" then - n else n
               | None => 0
               end
        end
      else match atoi_digits 0 s with Some n => n | None => 0 end
  end.

End GoInt.

(** ** The fixed-array variant (src/main.go, lines 97-203) *)
Module Fixed.

(** [bits [99]bool]; an index outside [0, len) panics *)
Record BloomFilter := mkBloomFilter { bits : list bool }.

(** the zero value [BloomFilter{}]: 99 bits, all false *)
Definition ZeroBloomFilter : BloomFilter := mkBloomFilter (replicate 99 false).

Definition in_range (bs : list bool) (pos : Z) : bool :=
  (0 <=? pos) && (pos <? Z.of_nat (length bs)).

(** [f.bits[pos] = true] *)
Definition store (bs : list bool) (pos : Z) : option (list bool) :=
  if in_range bs pos then Some (<[Z.to_nat pos := true]> bs) else None.

(** [f.bits[pos]] *)
Definition load (bs : list bool) (pos : Z) : option bool :=
  if in_range bs pos then bs !! Z.to_nat pos else None.

Definition byteZ (b : byte) : Z := Z.of_N (Byte.to_N b).

(** the loop [p1 += int(b >> 1); p2 += int(b >> 2)] *)
Fixpoint sums (p1 p2 : Z) (data : list byte) : Z * Z :=
  match data with
  | [] => (p1, p2)
  | b :: data' =>
      sums (GoInt.wrap (p1 + Z.shiftr (byteZ b) 1))
           (GoInt.wrap (p2 + Z.shiftr (byteZ b) 2)) data'
  end.

(** the receiver [f] is not read *)
Definition getPositions (f : BloomFilter) (data : list byte) : option (list Z) :=
  let '(p1, p2) := sums 0 0 data in
  s1 ← GoInt.slice2 (GoInt.Itoa p1);
  s2 ← GoInt.slice2 (GoInt.Itoa p2);
  Some [GoInt.Atoi s1; GoInt.Atoi s2].

Fixpoint set_loop (bs : list bool) (ps : list Z) : option (list bool) :=
  match ps with
  | [] => Some bs
  | pos :: ps' => bs' ← store bs pos; set_loop bs' ps'
  end.

Definition Set_ (f : BloomFilter) (data : list byte) : option BloomFilter :=
  ps ← getPositions f data;
  bs ← set_loop (bits f) ps;
  Some (mkBloomFilter bs).

Fixpoint test_loop (bs : list bool) (ps : list Z) : option bool :=
  match ps with
  | [] => Some true
  | pos :: ps' =>
      hasBit ← load bs pos;
      if negb hasBit then Some false else test_loop bs ps'
  end.

Definition Test (f : BloomFilter) (data : list byte) : option bool :=
  ps ← getPositions f data;
  test_loop (bits f) ps.

Fixpoint Set_all (f : BloomFilter) (ds : list (list byte)) : option BloomFilter :=
  match ds with
  | [] => Some f
  | d :: ds' => f' ← Set_ f d; Set_all f' ds'
  end.

Record ArrayWithBloomFilter := mkArray {
  array : list string;
  filter : BloomFilter
}.

Definition NewArrayWithBloomFilter : ArrayWithBloomFilter :=
  mkArray [] ZeroBloomFilter.

Definition ArraySet (a : ArrayWithBloomFilter) (value : string)
  : option ArrayWithBloomFilter :=
  f ← Set_ (filter a) (list_byte_of_string value);
  Some (mkArray (array a ++ [value]) f).

Definition ArrayTest (a : ArrayWithBloomFilter) (value : string) : option bool :=
  hasElement ← Test (filter a) (list_byte_of_string value);
  if negb hasElement then Some false else Some (Sparse.scan (array a) value).

Fixpoint ArraySet_all (a : ArrayWithBloomFilter) (vs : list string)
  : option ArrayWithBloomFilter :=
  match vs with
  | [] => Some a
  | v :: vs' => a' ← ArraySet a v; ArraySet_all a' vs'
  end.

Fixpoint run (f : BloomFilter) (ops : list op)
  : option (BloomFilter * list bool) :=
  match ops with
  | [] => Some (f, [])
  | OpSet d :: ops' => f' ← Set_ f d; run f' ops'
  | OpTest d :: ops' =>
      b ← Test f d;
      '(f', rs) ← run f ops';
      Some (f', b :: rs)
  end.

End Fixed.

(** ** Relating the two variants: a renaming [r] of murmur3 positions
    into fixed-array positions *)
Definition sparse_positions (d : list byte) : list Z :=
  Sparse.getPositions Sparse.NewBloomFilter d.

Definition all_positions (ops : list op) : list Z :=
  concat (map (fun o => sparse_positions (op_data o)) ops).

(** ** The two [main] functions *)

(** [fmt.Println] of a [bool] *)
Definition show_bool (b : bool) : string := if b then "true" else "false".

(** [main] of the murmur3 variant (lines 78-95): the printed lines.
    [bf.Set(data)] mutates [bf] and returns it, so the second [Test]
    runs on the filter that holds "test". *)
Definition main_sparse : list string :=
  let bf := Sparse.NewBloomFilter in
  let data := list_byte_of_string "test" in
  let bf := Sparse.Set_ bf data in
  let l1 := show_bool (Sparse.Test bf data) in
  let l2 := show_bool (Sparse.Test bf (list_byte_of_string "test2")) in
  let arr := Sparse.NewArrayWithBloomFilter in
  let arr := Sparse.ArraySet arr "test" in
  let l3 := show_bool (Sparse.ArrayTest arr "test") in
  let l4 := show_bool (Sparse.ArrayTest arr "test2") in
  ["Should be true:"; l1; "Should be false:"; l2;
   "Should be true:"; l3; "Should be false:"; l4]%string.

(** [main] of the fixed-array variant (lines 190-203): the printed lines
    and whether it ran to the end ([false] after a panic) *)
Definition main_fixed : list string * bool :=
  let arr := Fixed.NewArrayWithBloomFilter in
  match Fixed.ArraySet arr "test" with
  | None => ([], false)
  | Some arr =>
      match Fixed.ArrayTest arr "test" with
      | None => (["Should be true:"]%string, false)
      | Some b1 =>
          match Fixed.ArrayTest arr "test2" with
          | None => (["Should be true:"; show_bool b1; "Should be false:"]%string, false)
          | Some b2 =>
              (["Should be true:"; show_bool b1; "Should be false:"; show_bool b2]%string, true)
          end
      end
  end.

(** * Facts about the murmur3 variant *)
Module SparseFacts.
Import Sparse.

Lemma set_loop_union (ba : gset Z) (ps : list Z) :
  set_loop ba ps = list_to_set ps ∪ ba.
Proof.
  revert ba; induction ps as [|p ps IH]; intros ba; simpl.
  - unfold_leibniz; set_solver.
  - rewrite IH; unfold SetBit; unfold_leibniz; set_solver.
Qed.

Lemma test_loop_true_sparse (ba : gset Z) (ps : list Z) :
  test_loop ba ps = true <-> Forall (fun p => p ∈ ba) ps.
Proof.
  induction ps as [|p ps IH]; simpl.
  - split; [constructor | done].
  - unfold GetBit; case_bool_decide as Hp; simpl.
    + rewrite IH, Forall_cons; tauto.
    + rewrite Forall_cons; split; [done | tauto].
Qed.

Lemma Test_iff (f : BloomFilter) (d : list byte) :
  Test f d = true <-> Forall (fun p => p ∈ bits f) (getPositions f d).
Proof. apply test_loop_true_sparse. Qed.

Lemma Set_bits (f : BloomFilter) (d : list byte) :
  bits (Set_ f d) = list_to_set (getPositions f d) ∪ bits f.
Proof. apply set_loop_union. Qed.

Lemma Set_all_mono_sparse (f : BloomFilter) (ds : list (list byte)) :
  bits f ⊆ bits (Set_all f ds).
Proof.
  revert f; induction ds as [|d ds IH]; intros f; simpl; [done|].
  etrans; [|apply IH]. rewrite Set_bits; set_solver.
Qed.

Lemma Set_Test_sparse (f : BloomFilter) (d : list byte) : Test (Set_ f d) d = true.
Proof.
  apply Test_iff, Forall_forall; intros p Hp.
  rewrite Set_bits; apply elem_of_union_l, elem_of_list_to_set.
  exact Hp.
Qed.

Lemma Test_mono_sparse (f g : BloomFilter) (d : list byte) :
  bits f ⊆ bits g -> Test f d = true -> Test g d = true.
Proof.
  rewrite !Test_iff; intros Hsub H; eapply Forall_impl; [exact H|].
  simpl; set_solver.
Qed.

Lemma scan_In (arr : list string) (v : string) :
  scan arr v = true <-> In v arr.
Proof.
  induction arr as [|el arr IH]; simpl; [split; [done|tauto]|].
  destruct (String.eqb_spec el v) as [->|Hne]; [tauto|].
  rewrite IH; split; [tauto|]; intros [?|?]; [congruence|done].
Qed.

Lemma ArraySet_all_array (a : ArrayWithBloomFilter) (vs : list string) :
  array (ArraySet_all a vs) = array a ++ vs.
Proof.
  revert a; induction vs as [|v vs IH]; intros a; simpl.
  - by rewrite app_nil_r.
  - rewrite IH; simpl; by rewrite <- app_assoc.
Qed.

Lemma ArraySet_all_filter (a : ArrayWithBloomFilter) (vs : list string) :
  filter (ArraySet_all a vs) = Set_all (filter a) (map list_byte_of_string vs).
Proof.
  revert a; induction vs as [|v vs IH]; intros a; simpl; [done|].
  by rewrite IH.
Qed.

Lemma Set_all_covers_sparse (f : BloomFilter) (ds : list (list byte)) (d : list byte) :
  In d ds -> Test (Set_all f ds) d = true.
Proof.
  revert f; induction ds as [|d' ds IH]; intros f Hin; simpl in *; [done|].
  destruct Hin as [<-|Hin]; [|by apply IH].
  eapply Test_mono_sparse; [apply Set_all_mono_sparse | apply Set_Test_sparse].
Qed.

Lemma run_mono_sparse (f : BloomFilter) (ops : list op) :
  bits f ⊆ bits (fst (run f ops)).
Proof.
  revert f; induction ops as [|[d|d] ops IH]; intros f; simpl; [done| |].
  - etrans; [|apply IH]. rewrite Set_bits; set_solver.
  - specialize (IH f); destruct (run f ops); done.
Qed.

End SparseFacts.

(** * Facts about the fixed-array variant *)
Module FixedFacts.
Import Fixed.

Lemma in_range_insert (bs : list bool) (i : nat) (x : bool) (q : Z) :
  in_range (<[i:=x]> bs) q = in_range bs q.
Proof. unfold in_range; by rewrite length_insert. Qed.

Lemma store_Some (bs bs' : list bool) (p : Z) :
  store bs p = Some bs' <-> in_range bs p = true /\ bs' = <[Z.to_nat p:=true]> bs.
Proof.
  unfold store; destruct (in_range bs p); split; intros H;
    [inversion H; done | destruct H; by subst | done | by destruct H].
Qed.

Lemma load_insert_mono (bs : list bool) (i : nat) (q : Z) :
  load bs q = Some true -> load (<[i:=true]> bs) q = Some true.
Proof.
  unfold load; rewrite in_range_insert; destruct (in_range bs q); [|done].
  intros Hq; destruct (decide (i = Z.to_nat q)) as [->|Hne].
  - apply list_lookup_insert_eq; eapply lookup_lt_Some; exact Hq.
  - by rewrite list_lookup_insert_ne.
Qed.

Lemma load_insert_same (bs : list bool) (p : Z) :
  in_range bs p = true -> load (<[Z.to_nat p:=true]> bs) p = Some true.
Proof.
  unfold load; rewrite in_range_insert; intros Hr; rewrite Hr.
  apply list_lookup_insert_eq.
  unfold in_range in Hr; apply andb_prop in Hr as [H0 H1]; lia.
Qed.

Lemma set_loop_length (bs bs' : list bool) (ps : list Z) :
  set_loop bs ps = Some bs' -> length bs' = length bs.
Proof.
  revert bs; induction ps as [|p ps IH]; intros bs H; simpl in H.
  - by inversion H.
  - destruct (store bs p) as [bs1|] eqn:Hs; [|done]; simpl in H.
    apply store_Some in Hs as [_ ->]. rewrite (IH _ H). apply length_insert.
Qed.

Lemma set_loop_mono (bs bs' : list bool) (ps : list Z) (q : Z) :
  set_loop bs ps = Some bs' -> load bs q = Some true -> load bs' q = Some true.
Proof.
  revert bs; induction ps as [|p ps IH]; intros bs H Hq; simpl in H.
  - by inversion H; subst.
  - destruct (store bs p) as [bs1|] eqn:Hs; [|done]; simpl in H.
    apply store_Some in Hs as [_ ->]. eapply IH; [exact H|].
    by apply load_insert_mono.
Qed.

Lemma set_loop_sets (bs bs' : list bool) (ps : list Z) :
  set_loop bs ps = Some bs' -> Forall (fun p => load bs' p = Some true) ps.
Proof.
  revert bs; induction ps as [|p ps IH]; intros bs H; simpl in H; [constructor|].
  destruct (store bs p) as [bs1|] eqn:Hs; [|done]; simpl in H.
  apply store_Some in Hs as [Hr ->]. constructor; [|by eapply IH].
  eapply set_loop_mono; [exact H|]. by apply load_insert_same.
Qed.

Lemma load_true_in_range (bs : list bool) (p : Z) :
  load bs p = Some true -> in_range bs p = true /\ bs !! Z.to_nat p = Some true.
Proof. unfold load; by destruct (in_range bs p). Qed.

Lemma set_loop_id (bs : list bool) (ps : list Z) :
  Forall (fun p => load bs p = Some true) ps -> set_loop bs ps = Some bs.
Proof.
  induction 1 as [|p ps Hp _ IH]; simpl; [done|].
  apply load_true_in_range in Hp as [Hr Hl].
  unfold store; rewrite Hr; simpl. by rewrite list_insert_id.
Qed.

Lemma test_loop_true_fixed (bs : list bool) (ps : list Z) :
  test_loop bs ps = Some true <-> Forall (fun p => load bs p = Some true) ps.
Proof.
  induction ps as [|p ps IH]; simpl; [split; [constructor|done]|].
  rewrite Forall_cons.
  destruct (load bs p) as [[]|]; simpl.
  - rewrite IH; tauto.
  - split; [done|]. by intros [? _].
  - split; [done|]. by intros [? _].
Qed.

Lemma Set_Some (f f' : BloomFilter) (d : list byte) :
  Set_ f d = Some f' ->
  exists ps, getPositions f d = Some ps /\ set_loop (bits f) ps = Some (bits f').
Proof.
  unfold Set_; destruct (getPositions f d) as [ps|]; simpl; [|done].
  destruct (set_loop (bits f) ps) as [bs|] eqn:E; simpl; [|done].
  intros H; inversion H; subst; eauto.
Qed.

Lemma Test_true (f : BloomFilter) (d : list byte) :
  Test f d = Some true <->
  exists ps, getPositions f d = Some ps /\ Forall (fun p => load (bits f) p = Some true) ps.
Proof.
  unfold Test; destruct (getPositions f d) as [ps|]; simpl.
  - rewrite test_loop_true_fixed; split; [eauto|]. intros (? & H & ?); by inversion H; subst.
  - split; [done|]. by intros (? & ? & _).
Qed.

Lemma Set_Test_fixed (f f' : BloomFilter) (d : list byte) :
  Set_ f d = Some f' -> Test f' d = Some true.
Proof.
  intros (ps & Hps & Hset)%Set_Some. apply Test_true. exists ps; split.
  - exact Hps.
  - by eapply set_loop_sets.
Qed.

Lemma Set_mono (f f' : BloomFilter) (d : list byte) (q : Z) :
  Set_ f d = Some f' -> load (bits f) q = Some true -> load (bits f') q = Some true.
Proof. intros (ps & _ & Hset)%Set_Some; by eapply set_loop_mono. Qed.

Lemma Test_mono_fixed (f g : BloomFilter) (d : list byte) :
  (forall q, load (bits f) q = Some true -> load (bits g) q = Some true) ->
  Test f d = Some true -> Test g d = Some true.
Proof.
  intros Hfg (ps & Hps & Hall)%Test_true. apply Test_true; exists ps; split.
  - exact Hps.
  - eapply Forall_impl; [exact Hall|]. exact Hfg.
Qed.

Lemma Set_all_mono_fixed (f g : BloomFilter) (ds : list (list byte)) (q : Z) :
  Set_all f ds = Some g -> load (bits f) q = Some true -> load (bits g) q = Some true.
Proof.
  revert f; induction ds as [|d ds IH]; intros f H Hq; simpl in H.
  - by inversion H; subst.
  - destruct (Set_ f d) as [f1|] eqn:E; [|done]; simpl in H.
    eapply IH; [exact H|]. by eapply Set_mono.
Qed.

Lemma Set_all_covers_fixed (f g : BloomFilter) (ds : list (list byte)) (d : list byte) :
  Set_all f ds = Some g -> In d ds -> Test g d = Some true.
Proof.
  revert f; induction ds as [|d' ds IH]; intros f H Hin; simpl in *; [done|].
  destruct (Set_ f d') as [f1|] eqn:E; [|done]; simpl in H.
  destruct Hin as [<-|Hin]; [|by eapply IH].
  eapply Test_mono_fixed; [|by eapply Set_Test_fixed].
  intros q; by eapply Set_all_mono_fixed.
Qed.

Lemma ArraySet_all_Some (a a' : ArrayWithBloomFilter) (vs : list string) :
  ArraySet_all a vs = Some a' ->
  array a' = array a ++ vs /\
  Set_all (filter a) (map list_byte_of_string vs) = Some (filter a').
Proof.
  revert a; induction vs as [|v vs IH]; intros a H; simpl in H.
  - inversion H; subst; simpl; by rewrite app_nil_r.
  - unfold ArraySet in H.
    destruct (Set_ (filter a) (list_byte_of_string v)) as [f1|] eqn:E; [|done].
    simpl in H. apply IH in H as [Harr Hf]; simpl in *.
    rewrite E; simpl. split; [|exact Hf]. by rewrite Harr, <- app_assoc.
Qed.

Lemma run_mono_fixed (f : BloomFilter) (ops : list op) (f' : BloomFilter)
  (rs : list bool) (q : Z) :
  run f ops = Some (f', rs) -> load (bits f) q = Some true -> load (bits f') q = Some true.
Proof.
  revert f rs; induction ops as [|[d|d] ops IH]; intros f rs H Hq; simpl in H.
  - by inversion H; subst.
  - destruct (Set_ f d) as [f1|] eqn:E; [|done]; simpl in H.
    eapply IH; [exact H|]. by eapply Set_mono.
  - destruct (Test f d) as [b|]; [|done]; simpl in H.
    destruct (run f ops) as [[f1 rs1]|] eqn:E; [|done]; simpl in H.
    inversion H; subst. by eapply IH.
Qed.

End FixedFacts.

(** * Both variants run the same loops: under a one-to-one renaming [r]
    of the positions in play, the fixed-array state tracks the sparse one *)
Module Renaming.

Section Rel.
Variable r : Z -> Z.
Variable P : list Z.
Hypothesis Hinj : forall p q, p ∈ P -> q ∈ P -> r p = r q -> p = q.
Hypothesis Hrange : forall p, p ∈ P -> 0 <= r p < 99.

Lemma set_loop_rel (ps : list Z) (bs : list bool) (S : gset Z) :
  ps ⊆ P -> length bs = 99%nat ->
  (forall p, p ∈ P -> (p ∈ S <-> bs !! Z.to_nat (r p) = Some true)) ->
  exists bs', Fixed.set_loop bs (map r ps) = Some bs' /\ length bs' = 99%nat /\
    (forall p, p ∈ P -> (p ∈ Sparse.set_loop S ps <-> bs' !! Z.to_nat (r p) = Some true)).
Proof.
  revert bs S; induction ps as [|p ps IH]; intros bs S Hsub Hlen Hrel; simpl.
  - eauto.
  - assert (HpP : p ∈ P) by (apply Hsub; left).
    pose proof (Hrange p HpP) as Hr.
    assert (Hin : Fixed.in_range bs (r p) = true).
    { unfold Fixed.in_range; rewrite Hlen; apply andb_true_intro; split; [apply Z.leb_le | apply Z.ltb_lt]; lia. }
    unfold Fixed.store; rewrite Hin; simpl.
    apply IH.
    + intros x Hx; apply Hsub; by right.
    + by rewrite length_insert.
    + intros q HqP; unfold Sparse.SetBit; rewrite elem_of_union, elem_of_singleton.
      destruct (decide (q = p)) as [->|Hne].
      * rewrite list_lookup_insert_eq by lia. tauto.
      * assert (Hrq : Z.to_nat (r p) <> Z.to_nat (r q)).
        { pose proof (Hrange q HqP). intros E.
          apply Hne, Hinj; [done|done|lia]. }
        rewrite list_lookup_insert_ne by exact Hrq. rewrite <- Hrel by done. tauto.
Qed.

Lemma test_loop_rel (ps : list Z) (bs : list bool) (S : gset Z) :
  ps ⊆ P -> length bs = 99%nat ->
  (forall p, p ∈ P -> (p ∈ S <-> bs !! Z.to_nat (r p) = Some true)) ->
  Fixed.test_loop bs (map r ps) = Some (Sparse.test_loop S ps).
Proof.
  intros Hsub Hlen Hrel; induction ps as [|p ps IH]; simpl; [done|].
  assert (HpP : p ∈ P) by (apply Hsub; left).
  pose proof (Hrange p HpP) as Hr.
  assert (Hin : Fixed.in_range bs (r p) = true).
  { unfold Fixed.in_range; rewrite Hlen; apply andb_true_intro; split; [apply Z.leb_le | apply Z.ltb_lt]; lia. }
  unfold Fixed.load; rewrite Hin.
  destruct (lookup_lt_is_Some_2 bs (Z.to_nat (r p))) as [b Hb]; [lia|].
  rewrite Hb; simpl. unfold Sparse.GetBit.
  pose proof (Hrel p HpP) as Hp; rewrite Hb in Hp.
  destruct b; simpl.
  - rewrite bool_decide_true by (apply Hp; done). simpl.
    apply IH; intros x Hx; apply Hsub; by right.
  - rewrite bool_decide_false by (rewrite Hp; done). done.
Qed.

Lemma run_rel (ops : list op) (bs : list bool) (S : gset Z) :
  Forall (fun o => Fixed.getPositions Fixed.ZeroBloomFilter (op_data o) =
                   Some (map r (sparse_positions (op_data o))) /\
                   sparse_positions (op_data o) ⊆ P) ops ->
  length bs = 99%nat ->
  (forall p, p ∈ P -> (p ∈ S <-> bs !! Z.to_nat (r p) = Some true)) ->
  option_map snd (Fixed.run (Fixed.mkBloomFilter bs) ops) =
  Some (snd (Sparse.run (Sparse.mkBloomFilter S) ops)).
Proof.
  revert bs S; induction ops as [|[d|d] ops IH]; intros bs S Hops Hlen Hrel;
    simpl; [done| |];
    apply Forall_cons in Hops as [[Hpos Hsub] Hops]; cbn [op_data] in Hpos, Hsub.
  - unfold Fixed.Set_; change (Fixed.getPositions _ d) with
      (Fixed.getPositions Fixed.ZeroBloomFilter d); rewrite Hpos.
    destruct (set_loop_rel _ bs S Hsub Hlen Hrel) as (bs' & Hset & Hlen' & Hrel').
    cbn -[map Fixed.set_loop]. rewrite Hset; simpl.
    unfold Sparse.Set_; simpl. apply IH; done.
  - unfold Fixed.Test; change (Fixed.getPositions _ d) with
      (Fixed.getPositions Fixed.ZeroBloomFilter d); rewrite Hpos.
    cbn -[map Fixed.test_loop Fixed.run].
    rewrite (test_loop_rel _ bs S Hsub Hlen Hrel); simpl.
    pose proof (IH bs S Hops Hlen Hrel) as IH'.
    destruct (Fixed.run (Fixed.mkBloomFilter bs) ops) as [[f' rs]|]; [|done].
    destruct (Sparse.run (Sparse.mkBloomFilter S) ops) as [f'' rs'].
    simpl in *. inversion IH'; subst. unfold Sparse.Test; done.
Qed.

End Rel.

End Renaming.

(** * The claims *)

Local Open Scope string_scope.

(** C1 (no false negatives). After [f.Set(d)], [f.Test(d)] is true and
    stays true whatever is set afterwards. Murmur3 variant: for every
    filter state, every [d] and every later inputs [ds]. Fixed-array
    variant: whenever those [Set] calls return (they may panic, see C2),
    [Test(d)] returns [true]. *)
Theorem no_false_negatives :
  (forall (f : Sparse.BloomFilter) (d : list byte) (ds : list (list byte)),
      Sparse.Test (Sparse.Set_all (Sparse.Set_ f d) ds) d = true) /\
  (forall (f f1 f2 : Fixed.BloomFilter) (d : list byte) (ds : list (list byte)),
      Fixed.Set_ f d = Some f1 -> Fixed.Set_all f1 ds = Some f2 ->
      Fixed.Test f2 d = Some true).
Proof.
  split.
  - intros f d ds. eapply SparseFacts.Test_mono_sparse;
      [apply SparseFacts.Set_all_mono_sparse | apply SparseFacts.Set_Test_sparse].
  - intros f f1 f2 d ds H1 H2. eapply FixedFacts.Test_mono_fixed.
    + intros q; eapply FixedFacts.Set_all_mono_fixed; exact H2.
    + eapply FixedFacts.Set_Test_fixed; exact H1.
Qed.

Lemma no_false_negatives_witness :
  exists f1 f2,
    Fixed.Set_ Fixed.ZeroBloomFilter (list_byte_of_string "test") = Some f1 /\
    Fixed.Set_all f1 [list_byte_of_string "hello"; list_byte_of_string "world"] = Some f2 /\
    Fixed.Test f2 (list_byte_of_string "test") = Some true /\
    Sparse.Test (Sparse.Set_all (Sparse.Set_ Sparse.NewBloomFilter (list_byte_of_string "test"))
                   [list_byte_of_string "hello"]) (list_byte_of_string "test") = true.
Proof.
  do 2 eexists.
  split; [vm_compute; reflexivity|].
  split; [vm_compute; reflexivity|].
  split.
  - eapply (proj2 no_false_negatives Fixed.ZeroBloomFilter _ _ _
             [list_byte_of_string "hello"; list_byte_of_string "world"]);
      vm_compute; reflexivity.
  - apply (proj1 no_false_negatives).
Defined.

(** C2 (totality). The fixed-array variant is not total: [getPositions]
    slices [strconv.Itoa(p)[:2]], which panics when the byte sum has a
    single digit (e.g. the empty input), and a two-digit prefix of 99
    indexes [bits[99]] of a [[99]bool] (e.g. "bd": 49 + 50 = 99). So
    [Set], [Test] and the collection's [Set] and [Test] panic there. *)
Theorem fixed_variant_panics :
  Fixed.Set_ Fixed.ZeroBloomFilter (list_byte_of_string "") = None /\
  Fixed.Test Fixed.ZeroBloomFilter (list_byte_of_string "") = None /\
  Fixed.ArraySet Fixed.NewArrayWithBloomFilter "" = None /\
  Fixed.ArrayTest Fixed.NewArrayWithBloomFilter "" = None /\
  Fixed.getPositions Fixed.ZeroBloomFilter (list_byte_of_string "bd") = Some [99; 49] /\
  Fixed.ArraySet Fixed.NewArrayWithBloomFilter "bd" = None.
Proof. vm_compute. repeat split. Qed.

(** C3 (exactness of the collection). For every sequence [vs] of
    [insert]s on a new collection, [contains(s)] is true iff [s] is in
    [vs]. In the fixed-array variant this holds whenever the inserts
    return (returning [Some true] iff [s] is in [vs]). *)
Theorem collection_exact :
  (forall (vs : list string) (s : string),
      Sparse.ArrayTest (Sparse.ArraySet_all Sparse.NewArrayWithBloomFilter vs) s = true
      <-> In s vs) /\
  (forall (vs : list string) (a : Fixed.ArrayWithBloomFilter) (s : string),
      Fixed.ArraySet_all Fixed.NewArrayWithBloomFilter vs = Some a ->
      (Fixed.ArrayTest a s = Some true <-> In s vs)).
Proof.
  split.
  - intros vs s. unfold Sparse.ArrayTest.
    rewrite SparseFacts.ArraySet_all_filter, SparseFacts.ArraySet_all_array; simpl.
    split.
    + destruct (Sparse.Test _ _); simpl; [|done].
      intros H; by apply SparseFacts.scan_In in H.
    + intros Hin. rewrite SparseFacts.Set_all_covers_sparse by (apply in_map; exact Hin).
      simpl. by apply SparseFacts.scan_In.
  - intros vs a s Ha. apply FixedFacts.ArraySet_all_Some in Ha as [Harr Hf].
    simpl in Harr. unfold Fixed.ArrayTest. split.
    + destruct (Fixed.Test _ _) as [[]|]; simpl; intros H; try done.
      inversion H as [H']. apply SparseFacts.scan_In in H'. by rewrite Harr in H'.
    + intros Hin. rewrite (FixedFacts.Set_all_covers_fixed _ _ _ _ Hf) by (apply in_map; exact Hin).
      simpl. f_equal. apply SparseFacts.scan_In. by rewrite Harr.
Qed.

Lemma collection_exact_witness :
  (Sparse.ArrayTest (Sparse.ArraySet_all Sparse.NewArrayWithBloomFilter ["test"; "a"]) "test" = true
   <-> In "test" ["test"; "a"]) /\
  exists a, Fixed.ArraySet_all Fixed.NewArrayWithBloomFilter ["test"; "a"] = Some a /\
    (Fixed.ArrayTest a "tset" = Some true <-> In "tset" ["test"; "a"]).
Proof.
  split; [apply (proj1 collection_exact)|].
  eexists; split; [vm_compute; reflexivity|].
  apply (proj2 collection_exact ["test"; "a"]). vm_compute; reflexivity.
Defined.

(** C4 (superset invariant). After any sequence [vs] of inserts on a new
    collection, the owned filter's [Test] is true for every inserted
    string; in the fixed-array variant whenever the inserts return. *)
Theorem superset_invariant :
  (forall (vs : list string) (s : string),
      In s vs ->
      Sparse.Test (Sparse.filter (Sparse.ArraySet_all Sparse.NewArrayWithBloomFilter vs))
        (list_byte_of_string s) = true) /\
  (forall (vs : list string) (a : Fixed.ArrayWithBloomFilter) (s : string),
      Fixed.ArraySet_all Fixed.NewArrayWithBloomFilter vs = Some a ->
      In s vs ->
      Fixed.Test (Fixed.filter a) (list_byte_of_string s) = Some true).
Proof.
  split.
  - intros vs s Hin. rewrite SparseFacts.ArraySet_all_filter.
    apply SparseFacts.Set_all_covers_sparse, in_map, Hin.
  - intros vs a s Ha Hin. apply FixedFacts.ArraySet_all_Some in Ha as [_ Hf].
    eapply FixedFacts.Set_all_covers_fixed; [exact Hf|]. apply in_map, Hin.
Qed.

Lemma superset_invariant_witness :
  Sparse.Test (Sparse.filter (Sparse.ArraySet_all Sparse.NewArrayWithBloomFilter ["x"; "test"]))
    (list_byte_of_string "test") = true /\
  exists a, Fixed.ArraySet_all Fixed.NewArrayWithBloomFilter ["test"; "hello"] = Some a /\
    Fixed.Test (Fixed.filter a) (list_byte_of_string "test") = Some true.
Proof.
  split.
  - apply (proj1 superset_invariant); simpl; tauto.
  - eexists; split; [vm_compute; reflexivity|].
    eapply (proj2 superset_invariant ["test"; "hello"]);
      [vm_compute; reflexivity | simpl; tauto].
Defined.

(** C5 (monotonicity of the bit store). A bit that is set stays set
    through any sequence of [Set] and [Test] calls; in the fixed-array
    variant whenever the sequence returns. *)
Theorem bits_monotone :
  (forall (f : Sparse.BloomFilter) (ops : list op) (p : Z),
      Sparse.GetBit (Sparse.bits f) p = true ->
      Sparse.GetBit (Sparse.bits (fst (Sparse.run f ops))) p = true) /\
  (forall (f f' : Fixed.BloomFilter) (ops : list op) (rs : list bool) (p : Z),
      Fixed.run f ops = Some (f', rs) ->
      Fixed.load (Fixed.bits f) p = Some true ->
      Fixed.load (Fixed.bits f') p = Some true).
Proof.
  split.
  - intros f ops p. unfold Sparse.GetBit. rewrite !bool_decide_eq_true.
    apply SparseFacts.run_mono_sparse.
  - intros f f' ops rs p Hrun. eapply FixedFacts.run_mono_fixed; exact Hrun.
Qed.

Lemma bits_monotone_witness :
  Sparse.GetBit
    (Sparse.bits (fst (Sparse.run (Sparse.mkBloomFilter {[22]})
       [OpSet (list_byte_of_string "a"); OpTest (list_byte_of_string "b")]))) 22 = true /\
  option_map (fun '(f', _) => Fixed.load (Fixed.bits f') 22)
    (Fixed.run (Fixed.mkBloomFilter (<[22%nat:=true]> (replicate 99 false)))
       [OpSet (list_byte_of_string "hello"); OpTest (list_byte_of_string "b")])
  = Some (Some true).
Proof.
  split.
  - apply (proj1 bits_monotone (Sparse.mkBloomFilter {[22]})
             [OpSet (list_byte_of_string "a"); OpTest (list_byte_of_string "b")] 22).
    vm_compute. reflexivity.
  - destruct (Fixed.run (Fixed.mkBloomFilter (<[22%nat:=true]> (replicate 99 false)))
       [OpSet (list_byte_of_string "hello"); OpTest (list_byte_of_string "b")])
      as [[f' rs]|] eqn:E.
    + cbn [option_map]. f_equal.
      apply (proj2 bits_monotone _ f' _ rs 22 E). vm_compute. reflexivity.
    + vm_compute in E. discriminate.
Defined.

(** C6 (determinism of position derivation). [getPositions] does not
    read its receiver: any two filter states give the same positions
    for the same input, in both variants. *)
Theorem positions_deterministic :
  (forall (f g : Sparse.BloomFilter) (d : list byte),
      Sparse.getPositions f d = Sparse.getPositions g d) /\
  (forall (f g : Fixed.BloomFilter) (d : list byte),
      Fixed.getPositions f d = Fixed.getPositions g d).
Proof. split; intros; reflexivity. Qed.

(** C7 (empty-filter negativity). The murmur3 variant's fresh filter
    answers [false] for every input. The fixed-array variant's zero
    filter never answers [true], but it panics instead of answering
    [false] on the empty input (the slicing of C2). *)
Theorem fresh_filter_negative :
  (forall d : list byte, Sparse.Test Sparse.NewBloomFilter d = false) /\
  (forall d : list byte, Fixed.Test Fixed.ZeroBloomFilter d <> Some true) /\
  Fixed.Test Fixed.ZeroBloomFilter (list_byte_of_string "") = None.
Proof.
  split; [|split].
  - intros d. destruct (Sparse.Test _ d) eqn:E; [|reflexivity].
    apply SparseFacts.Test_iff in E. unfold Sparse.getPositions in E.
    apply Forall_cons in E as [E _]. cbn [Sparse.bits Sparse.NewBloomFilter] in E.
    set_solver.
  - intros d (ps & Hps & Hall)%FixedFacts.Test_true.
    unfold Fixed.getPositions in Hps.
    destruct (Fixed.sums 0 0 d) as [p1 p2].
    destruct (GoInt.slice2 (GoInt.Itoa p1)); [|done]; simpl in Hps.
    destruct (GoInt.slice2 (GoInt.Itoa p2)); [|done]; simpl in Hps.
    inversion Hps; subst. apply Forall_cons in Hall as [H _].
    apply FixedFacts.load_true_in_range in H as [_ H].
    apply lookup_replicate in H as [H _]. done.
  - vm_compute. reflexivity.
Qed.

(** C8 (the two variants are equivalent), refuted. After [Set("test")]
    the fixed-array variant answers [true] for [Test("tset")]: an anagram
    has the same byte sums, hence positions 22 and 11, while murmur3
    gives other positions and the murmur3 variant answers [false]. *)
Lemma variants_not_equivalent :
  ~ (forall ops : list op,
        option_map snd (Fixed.run Fixed.ZeroBloomFilter ops) =
        Some (snd (Sparse.run Sparse.NewBloomFilter ops))).
Proof.
  intros H.
  specialize (H [OpSet (list_byte_of_string "test"); OpTest (list_byte_of_string "tset")]).
  vm_compute in H. discriminate.
Qed.

(** C8, amended. The two variants run the same [Set]/[Test] loops and
    differ only in their positions and bit store: on a sequence of
    operations whose inputs' fixed-array positions are the image of
    their murmur3 positions under a renaming [r] into [0, 99) that is
    one-to-one on the murmur3 positions in play, both variants return
    the same results (and the fixed-array one does not panic). *)
Theorem variants_agree_under_renaming (ops : list op) (r : Z -> Z)
  (Hcorr : Forall (fun o => Fixed.getPositions Fixed.ZeroBloomFilter (op_data o) =
                            Some (map r (sparse_positions (op_data o)))) ops)
  (Hrange : Forall (fun p => 0 <= r p < 99) (all_positions ops))
  (Hinj : Forall (fun p => Forall (fun q => r p = r q -> p = q) (all_positions ops))
            (all_positions ops)) :
  option_map snd (Fixed.run Fixed.ZeroBloomFilter ops) =
  Some (snd (Sparse.run Sparse.NewBloomFilter ops)).
Proof.
  apply (Renaming.run_rel r (all_positions ops)).
  - intros p q Hp Hq. rewrite Forall_forall in Hinj.
    specialize (Hinj p Hp); rewrite Forall_forall in Hinj. by apply Hinj.
  - rewrite Forall_forall in Hrange. exact Hrange.
  - rewrite Forall_forall in Hcorr |- *. intros o Ho. split; [by apply Hcorr|].
    intros p Hp. apply list_elem_of_In. apply list_elem_of_In in Ho, Hp.
    unfold all_positions. apply in_concat.
    exists (sparse_positions (op_data o)); split; [|exact Hp].
    apply in_map_iff; eauto.
  - apply length_replicate.
  - intros p _. cbn [Fixed.ZeroBloomFilter Fixed.bits]. rewrite lookup_replicate.
    split; [set_solver|]. intros [? _]; done.
Qed.

Lemma variants_agree_under_renaming_witness :
  option_map snd (Fixed.run Fixed.ZeroBloomFilter
    [OpSet (list_byte_of_string "test"); OpTest (list_byte_of_string "test");
     OpTest (list_byte_of_string "test2")]) =
  Some (snd (Sparse.run Sparse.NewBloomFilter
    [OpSet (list_byte_of_string "test"); OpTest (list_byte_of_string "test");
     OpTest (list_byte_of_string "test2")])).
Proof.
  apply (variants_agree_under_renaming _
    (fun z =>
       if Z.eqb z (Murmur3.Sum64WithSeed (list_byte_of_string "test") 1) then 22
       else if Z.eqb z (Murmur3.Sum64WithSeed (list_byte_of_string "test") 2) then 11
       else if Z.eqb z (Murmur3.Sum64WithSeed (list_byte_of_string "test2") 1) then 24
       else 12));
    apply (bool_decide_unpack _); vm_compute; exact I.
Defined.

(** C9 (duplicate inserts), murmur3 variant. Inserting [s] twice into
    any collection appends two entries, and [Test(s)] is then true. *)
Theorem duplicate_inserts :
  forall (a : Sparse.ArrayWithBloomFilter) (s : string),
    let a' := Sparse.ArraySet (Sparse.ArraySet a s) s in
    Sparse.array a' = (Sparse.array a ++ [s; s])%list /\
    length (Sparse.array a') = (length (Sparse.array a) + 2)%nat /\
    Sparse.ArrayTest a' s = true.
Proof.
  intros a s a'. subst a'. unfold Sparse.ArraySet, Sparse.ArrayTest; simpl.
  split; [by rewrite <- app_assoc|]. split.
  - rewrite !length_app; simpl; lia.
  - rewrite (SparseFacts.Set_Test_sparse (Sparse.Set_ (Sparse.filter a) (list_byte_of_string s))
               (list_byte_of_string s)); simpl.
    apply SparseFacts.scan_In, in_or_app; right; simpl; tauto.
Qed.

(** C10 (idempotence of [Set]). Setting [d] twice gives the same bit
    store as setting it once: for every state in the murmur3 variant,
    and whenever the first [Set] returns in the fixed-array variant. *)
Theorem set_idempotent :
  (forall (f : Sparse.BloomFilter) (d : list byte),
      Sparse.Set_ (Sparse.Set_ f d) d = Sparse.Set_ f d) /\
  (forall (f f' : Fixed.BloomFilter) (d : list byte),
      Fixed.Set_ f d = Some f' -> Fixed.Set_ f' d = Some f').
Proof.
  split.
  - intros f d. unfold Sparse.Set_ at 1. cbn [Sparse.bits].
    rewrite (SparseFacts.Set_bits f d), !SparseFacts.set_loop_union.
    destruct f as [ba]; unfold Sparse.Set_; cbn [Sparse.bits]. f_equal.
    rewrite SparseFacts.set_loop_union. unfold_leibniz; set_solver.
  - intros f f' d H. pose proof (FixedFacts.Set_Some _ _ _ H) as (ps & Hps & Hset).
    unfold Fixed.Set_.
    change (Fixed.getPositions f' d) with (Fixed.getPositions f d); rewrite Hps.
    cbn -[Fixed.set_loop].
    rewrite (FixedFacts.set_loop_id _ _ (FixedFacts.set_loop_sets _ _ _ Hset)).
    by destruct f'.
Qed.

Lemma set_idempotent_witness :
  exists f', Fixed.Set_ Fixed.ZeroBloomFilter (list_byte_of_string "test") = Some f' /\
    Fixed.Set_ f' (list_byte_of_string "test") = Some f'.
Proof.
  eexists; split; [vm_compute; reflexivity|].
  apply (proj2 set_idempotent Fixed.ZeroBloomFilter).
  vm_compute. reflexivity.
Defined.

(** * Further properties of the code *)

(** ** Decimal digits: [strconv.Itoa(p)[:2]] and [strconv.Atoi] *)
Module Digits.
Import GoInt.

Lemma digit_cases (d : Z) :
  0 <= d <= 9 ->
  d = 0 \/ d = 1 \/ d = 2 \/ d = 3 \/ d = 4 \/ d = 5 \/ d = 6 \/ d = 7 \/ d = 8 \/ d = 9.
Proof. lia. Qed.

Lemma digit_val_char (d : Z) : 0 <= d <= 9 -> digit_val (digit_char d) = Some d.
Proof. intros H; apply digit_cases in H; repeat destruct H as [->|H]; subst; reflexivity. Qed.

Lemma digit_char_not_sign (d : Z) :
  0 <= d <= 9 ->
  Ascii.eqb (digit_char d) "-" = false /\ Ascii.eqb (digit_char d) "+" = false.
Proof. intros H; apply digit_cases in H; repeat destruct H as [->|H]; subst; split; reflexivity. Qed.

Lemma utoa_aux_small (fuel : nat) (n : Z) (acc : string) :
  (1 <= fuel)%nat -> 0 <= n < 10 ->
  utoa_aux fuel n acc = String (digit_char n) acc.
Proof.
  intros Hf Hn. destruct fuel as [|fuel]; [lia|]. cbn [utoa_aux].
  rewrite Z.mod_small by lia. destruct (Z.ltb_spec n 10); [reflexivity|lia].
Qed.

Lemma pow10_succ (f : nat) : 10 ^ Z.of_nat (S f) = 10 * 10 ^ Z.of_nat f.
Proof. rewrite Nat2Z.inj_succ, Z.pow_succ_r by lia. ring. Qed.

Lemma pow10_pos (f : nat) : 0 < 10 ^ Z.of_nat f.
Proof. apply Z.pow_pos_nonneg; lia. Qed.

(** a number of at least two digits starts with the two digits of some
    [t] in [10, 99] *)
Lemma utoa_aux_lead2 (fuel : nat) (n : Z) (acc : string) :
  10 <= n < 10 ^ Z.of_nat fuel ->
  exists t rest, 10 <= t <= 99 /\
    utoa_aux fuel n acc = String (digit_char (t / 10)) (String (digit_char (t mod 10)) rest).
Proof.
  revert n acc; induction fuel as [|f IH]; intros n acc Hn.
  - simpl in Hn; lia.
  - cbn [utoa_aux]. destruct (Z.ltb_spec n 10); [lia|].
    rewrite pow10_succ in Hn.
    assert (Hq : n / 10 < 10 ^ Z.of_nat f) by (apply Z.div_lt_upper_bound; lia).
    pose proof (Z.div_mod n 10) as Hdm. pose proof (Z.mod_pos_bound n 10) as Hmb.
    destruct (Z_lt_le_dec (n / 10) 10) as [Hlt|Hge].
    + rewrite utoa_aux_small.
      * exists n, acc; split; [lia|reflexivity].
      * destruct f; [simpl in Hq; lia|lia].
      * lia.
    + apply IH; lia.
Qed.

Lemma utoa_aux_lead1 (fuel : nat) (n : Z) (acc : string) :
  1 <= n < 10 ^ Z.of_nat fuel ->
  exists d rest, 1 <= d <= 9 /\ utoa_aux fuel n acc = String (digit_char d) rest.
Proof.
  intros Hn. destruct (Z_lt_le_dec n 10).
  - exists n, acc; split; [lia|]. apply utoa_aux_small; [|lia].
    destruct fuel; [simpl in Hn; lia|lia].
  - destruct (utoa_aux_lead2 fuel n acc) as (t & rest & Ht & ->); [lia|].
    exists (t / 10), (String (digit_char (t mod 10)) rest). split; [|reflexivity].
    pose proof (Z.div_mod t 10). pose proof (Z.mod_pos_bound t 10). lia.
Qed.

Lemma utoa_fuel (n : Z) :
  0 <= n -> n < 10 ^ Z.of_nat (S (Z.to_nat (Z.log2_up (n + 1)))).
Proof.
  intros Hn. pose proof (Z.log2_up_nonneg (n + 1)) as HL.
  rewrite pow10_succ, Z2Nat.id by lia.
  assert (n + 1 <= 2 ^ Z.log2_up (n + 1)).
  { destruct (Z.eq_dec n 0) as [->|]; [simpl; lia|].
    apply Z.log2_up_spec; lia. }
  assert (2 ^ Z.log2_up (n + 1) <= 10 ^ Z.log2_up (n + 1))
    by (apply Z.pow_le_mono_l; lia).
  assert (0 < 10 ^ Z.log2_up (n + 1)) by (apply Z.pow_pos_nonneg; lia).
  lia.
Qed.

Lemma Itoa_nonneg (n : Z) : 0 <= n -> Itoa n = utoa n.
Proof. intros Hn; unfold Itoa; destruct (Z.ltb_spec n 0); [lia|reflexivity]. Qed.

Lemma slice2_Itoa_ge10 (n : Z) :
  10 <= n -> exists s, slice2 (Itoa n) = Some s /\ 10 <= Atoi s <= 99.
Proof.
  intros Hn. rewrite Itoa_nonneg by lia. unfold utoa.
  destruct (utoa_aux_lead2 (S (Z.to_nat (Z.log2_up (n + 1)))) n EmptyString)
    as (t & rest & Ht & ->); [split; [lia|apply utoa_fuel; lia]|].
  pose proof (Z.div_mod t 10). pose proof (Z.mod_pos_bound t 10).
  assert (Hd1 : 0 <= t / 10 <= 9) by lia.
  assert (Hd2 : 0 <= t mod 10 <= 9) by lia.
  eexists; split; [reflexivity|].
  unfold Atoi. cbn [substring].
  destruct (digit_char_not_sign _ Hd1) as [-> ->]; simpl orb.
  cbn [atoi_digits]. rewrite !digit_val_char by assumption. simpl.
  replace (substring 0 0 rest) with EmptyString by (destruct rest; reflexivity).
  simpl. lia.
Qed.

Lemma slice2_Itoa_small (n : Z) : 0 <= n < 10 -> slice2 (Itoa n) = None.
Proof.
  intros Hn. rewrite Itoa_nonneg by lia. unfold utoa.
  rewrite utoa_aux_small by lia. reflexivity.
Qed.

Lemma slice2_Itoa_neg (n : Z) (s : string) :
  n < 0 -> slice2 (Itoa n) = Some s -> Atoi s < 0.
Proof.
  intros Hn. unfold Itoa. destruct (Z.ltb_spec n 0); [|lia]. unfold utoa.
  destruct (utoa_aux_lead1 (S (Z.to_nat (Z.log2_up (- n + 1)))) (- n) EmptyString)
    as (d & rest & Hd & ->); [split; [lia|apply utoa_fuel; lia]|].
  intros Hs; inversion Hs; subst; clear Hs.
  unfold Atoi; cbn [Ascii.eqb orb]; simpl.
  rewrite digit_val_char by lia. simpl.
  replace (substring 0 0 rest) with EmptyString by (destruct rest; reflexivity).
  simpl. lia.
Qed.

End Digits.

(** ** Positions and bit updates of the fixed-array variant *)
Module FixedMore.
Import Fixed.

Lemma getPositions_shape (f : BloomFilter) (d : list byte) (ps : list Z) :
  getPositions f d = Some ps ->
  exists a b, ps = [a; b] /\ Forall (fun p => p < 0 \/ 10 <= p <= 99) ps.
Proof.
  unfold getPositions. destruct (sums 0 0 d) as [p1 p2].
  assert (Hone : forall n s, GoInt.slice2 (GoInt.Itoa n) = Some s ->
            GoInt.Atoi s < 0 \/ 10 <= GoInt.Atoi s <= 99).
  { intros n s Hs. destruct (Z_lt_le_dec n 0) as [Hn|Hn].
    - left; by eapply Digits.slice2_Itoa_neg.
    - destruct (Z_lt_le_dec n 10) as [Hn'|Hn'].
      + by rewrite Digits.slice2_Itoa_small in Hs by lia.
      + right. destruct (Digits.slice2_Itoa_ge10 n Hn') as (s' & Hs' & Hr).
        rewrite Hs in Hs'; by inversion Hs'; subst. }
  destruct (GoInt.slice2 (GoInt.Itoa p1)) as [s1|] eqn:E1; simpl; [|done].
  destruct (GoInt.slice2 (GoInt.Itoa p2)) as [s2|] eqn:E2; simpl; [|done].
  intros H; inversion H; subst. do 2 eexists; split; [reflexivity|].
  apply Forall_cons; split; [exact (Hone _ _ E1)|].
  apply Forall_cons; split; [exact (Hone _ _ E2)|constructor].
Qed.

Lemma in_range_length (bs bs' : list bool) (p : Z) :
  length bs = length bs' -> in_range bs p = in_range bs' p.
Proof. unfold in_range; intros ->; reflexivity. Qed.

Lemma set_loop_in_range (bs bs' : list bool) (ps : list Z) :
  set_loop bs ps = Some bs' -> Forall (fun p => in_range bs p = true) ps.
Proof.
  revert bs; induction ps as [|p ps IH]; intros bs H; simpl in H; [constructor|].
  destruct (store bs p) as [bs1|] eqn:Hs; [|done]; simpl in H.
  apply FixedFacts.store_Some in Hs as [Hr ->]. constructor; [done|].
  eapply Forall_impl; [apply (IH _ H)|]. intros q Hq. cbv beta in Hq |- *. by rewrite FixedFacts.in_range_insert in Hq.
Qed.

Lemma set_loop_total (bs : list bool) (ps : list Z) :
  Forall (fun p => in_range bs p = true) ps -> exists bs', set_loop bs ps = Some bs'.
Proof.
  revert bs; induction ps as [|p ps IH]; intros bs H; simpl; [eauto|].
  apply Forall_cons in H as [Hp H]. unfold store; rewrite Hp; simpl.
  apply IH. eapply Forall_impl; [exact H|]. intros q. by rewrite FixedFacts.in_range_insert.
Qed.

(** every position written is set to true; the others keep their bit *)
Lemma set_loop_lookup (bs bs' : list bool) (ps : list Z) :
  set_loop bs ps = Some bs' ->
  forall i : nat, bs' !! i = (fun b => bool_decide (i ∈ map Z.to_nat ps) || b) <$> bs !! i.
Proof.
  revert bs; induction ps as [|p ps IH]; intros bs H i; simpl in H.
  - inversion H; subst. destruct (bs' !! i); reflexivity.
  - destruct (store bs p) as [bs1|] eqn:Hs; [|done]; simpl in H.
    apply FixedFacts.store_Some in Hs as [Hr ->]. rewrite (IH _ H i).
    unfold in_range in Hr; apply andb_prop in Hr as [Hr0 Hr1].
    apply Z.leb_le in Hr0; apply Z.ltb_lt in Hr1.
    cbn [map]. destruct (decide (i = Z.to_nat p)) as [->|Hne].
    + rewrite list_lookup_insert_eq by lia.
      destruct (lookup_lt_is_Some_2 bs (Z.to_nat p)) as [b ->]; [lia|].
      simpl. rewrite orb_true_r. f_equal. rewrite bool_decide_true; [reflexivity|].
      apply elem_of_cons; left; reflexivity.
    + rewrite list_lookup_insert_ne by congruence.
      destruct (bs !! i); simpl; [|reflexivity]. f_equal.
      rewrite (bool_decide_ext (i ∈ Z.to_nat p :: map Z.to_nat ps) (i ∈ map Z.to_nat ps));
        [reflexivity|]. rewrite elem_of_cons. naive_solver.
Qed.

End FixedMore.

(** X1. [getPositions] of the fixed-array variant, when both byte sums
    are at least 10, returns two positions, each between 10 and 99: the
    first two decimal digits of the sums. *)
Theorem fixed_positions_range (f : Fixed.BloomFilter) (d : list byte) (p1 p2 : Z) :
  Fixed.sums 0 0 d = (p1, p2) -> 10 <= p1 -> 10 <= p2 ->
  exists a b, Fixed.getPositions f d = Some [a; b] /\ 10 <= a <= 99 /\ 10 <= b <= 99.
Proof.
  intros Hs H1 H2. unfold Fixed.getPositions; rewrite Hs.
  destruct (Digits.slice2_Itoa_ge10 p1 H1) as (s1 & -> & R1).
  destruct (Digits.slice2_Itoa_ge10 p2 H2) as (s2 & -> & R2).
  simpl. eauto.
Qed.

Lemma fixed_positions_range_witness :
  exists a b, Fixed.getPositions Fixed.ZeroBloomFilter
                (list_byte_of_string "hello world") = Some [a; b] /\
              10 <= a <= 99 /\ 10 <= b <= 99.
Proof.
  apply (fixed_positions_range _ _ 556 276); [vm_compute; reflexivity | lia | lia].
Defined.

(** X2. [getPositions] of the fixed-array variant panics when one of the
    byte sums is a single digit (0 to 9): [strconv.Itoa(p)[:2]] slices
    past the end of a one-character string. *)
Theorem fixed_positions_panic (f : Fixed.BloomFilter) (d : list byte) (p1 p2 : Z) :
  Fixed.sums 0 0 d = (p1, p2) -> (0 <= p1 < 10 \/ 0 <= p2 < 10) ->
  Fixed.getPositions f d = None.
Proof.
  intros Hs Hsmall. unfold Fixed.getPositions; rewrite Hs.
  destruct Hsmall as [H|H].
  - rewrite (Digits.slice2_Itoa_small p1) by lia. reflexivity.
  - destruct (GoInt.slice2 (GoInt.Itoa p1)); simpl; [|done].
    rewrite (Digits.slice2_Itoa_small p2) by lia. reflexivity.
Qed.

Lemma fixed_positions_panic_witness :
  Fixed.getPositions Fixed.ZeroBloomFilter (list_byte_of_string "!") = None.
Proof.
  apply (fixed_positions_panic _ _ 16 8); [vm_compute; reflexivity | lia].
Defined.

(** X3. On a 99-bit filter, [Set(d)] of the fixed-array variant returns
    (does not panic) exactly when [getPositions] returns and both
    positions lie between 10 and 98. *)
Theorem fixed_set_succeeds_iff (f : Fixed.BloomFilter) (d : list byte) :
  length (Fixed.bits f) = 99%nat ->
  (is_Some (Fixed.Set_ f d) <->
   exists ps, Fixed.getPositions f d = Some ps /\ Forall (fun p => 10 <= p <= 98) ps).
Proof.
  intros Hlen. split.
  - intros [f' (ps & Hps & Hset)%FixedFacts.Set_Some]. exists ps; split; [exact Hps|].
    pose proof (FixedMore.set_loop_in_range _ _ _ Hset) as Hr.
    destruct (FixedMore.getPositions_shape _ _ _ Hps) as (a & b & _ & Hsh).
    rewrite Forall_forall in Hr, Hsh |- *. intros p Hp.
    specialize (Hr p Hp); specialize (Hsh p Hp).
    unfold Fixed.in_range in Hr; rewrite Hlen in Hr.
    apply andb_prop in Hr as [Hr0 Hr1]. apply Z.leb_le in Hr0; apply Z.ltb_lt in Hr1. lia.
  - intros (ps & Hps & Hall).
    destruct (FixedMore.set_loop_total (Fixed.bits f) ps) as [bs' Hbs'].
    { eapply Forall_impl; [exact Hall|]. intros p Hp. cbv beta in Hp |- *.
      unfold Fixed.in_range; rewrite Hlen.
      apply andb_true_intro; split; [apply Z.leb_le|apply Z.ltb_lt]; lia. }
    unfold Fixed.Set_; rewrite Hps; simpl; rewrite Hbs'; simpl. eexists; reflexivity.
Qed.

Lemma fixed_set_succeeds_iff_witness :
  is_Some (Fixed.Set_ Fixed.ZeroBloomFilter (list_byte_of_string "bd")) <->
  exists ps, Fixed.getPositions Fixed.ZeroBloomFilter (list_byte_of_string "bd") = Some ps /\
    Forall (fun p => 10 <= p <= 98) ps.
Proof. apply fixed_set_succeeds_iff. reflexivity. Defined.

(** X4. [Set] of the fixed-array variant never changes bits 0 to 9 of
    the array: the truncated positions are never below 10. *)
Theorem fixed_set_low_bits_untouched (f f' : Fixed.BloomFilter) (d : list byte) (i : nat) :
  Fixed.Set_ f d = Some f' -> (i < 10)%nat -> Fixed.bits f' !! i = Fixed.bits f !! i.
Proof.
  intros (ps & Hps & Hset)%FixedFacts.Set_Some Hi.
  rewrite (FixedMore.set_loop_lookup _ _ _ Hset i).
  rewrite bool_decide_false.
  - destruct (Fixed.bits f !! i); reflexivity.
  - intros (p & -> & Hp)%list_elem_of_fmap.
    pose proof (FixedMore.set_loop_in_range _ _ _ Hset) as Hr.
    destruct (FixedMore.getPositions_shape _ _ _ Hps) as (a & b & _ & Hsh).
    rewrite Forall_forall in Hr, Hsh. specialize (Hr p Hp); specialize (Hsh p Hp).
    unfold Fixed.in_range in Hr. apply andb_prop in Hr as [Hr0 _].
    apply Z.leb_le in Hr0. lia.
Qed.

Lemma fixed_set_low_bits_untouched_witness :
  exists f', Fixed.Set_ Fixed.ZeroBloomFilter (list_byte_of_string "test") = Some f' /\
    Fixed.bits f' !! 3%nat = Fixed.bits Fixed.ZeroBloomFilter !! 3%nat.
Proof.
  eexists; split; [vm_compute; reflexivity|].
  apply (fixed_set_low_bits_untouched Fixed.ZeroBloomFilter _ (list_byte_of_string "test"));
    [vm_compute; reflexivity | lia].
Defined.

Lemma wrap_add_swap (a x y : Z) :
  GoInt.wrap (GoInt.wrap (a + x) + y) = GoInt.wrap (GoInt.wrap (a + y) + x).
Proof.
  unfold GoInt.wrap.
  replace ((a + x + 2 ^ 63) mod 2 ^ 64 - 2 ^ 63 + y + 2 ^ 63)
    with ((a + x + 2 ^ 63) mod 2 ^ 64 + y) by ring.
  replace ((a + y + 2 ^ 63) mod 2 ^ 64 - 2 ^ 63 + x + 2 ^ 63)
    with ((a + y + 2 ^ 63) mod 2 ^ 64 + x) by ring.
  rewrite !Z.add_mod_idemp_l by lia. f_equal. f_equal. ring.
Qed.

Lemma sums_perm (d d' : list byte) :
  Permutation d d' -> forall p1 p2, Fixed.sums p1 p2 d = Fixed.sums p1 p2 d'.
Proof.
  induction 1 as [|b d d' _ IH|b c d|d d' d'' _ IH1 _ IH2]; intros p1 p2; simpl.
  - reflexivity.
  - apply IH.
  - rewrite (wrap_add_swap p1), (wrap_add_swap p2). reflexivity.
  - rewrite IH1; apply IH2.
Qed.

(** X5. The fixed-array variant cannot tell apart inputs that are
    permutations of each other (e.g. anagrams): its positions depend only
    on the byte sums, so [Test] and [Set] behave the same on both. *)
Theorem fixed_permutation_invariant (f : Fixed.BloomFilter) (d d' : list byte) :
  Permutation d d' ->
  Fixed.Test f d = Fixed.Test f d' /\ Fixed.Set_ f d = Fixed.Set_ f d'.
Proof.
  intros Hp. unfold Fixed.Test, Fixed.Set_, Fixed.getPositions.
  rewrite (sums_perm _ _ Hp 0 0). split; reflexivity.
Qed.

Lemma fixed_permutation_invariant_witness :
  Fixed.Test Fixed.ZeroBloomFilter (list_byte_of_string "test") =
  Fixed.Test Fixed.ZeroBloomFilter (list_byte_of_string "tset") /\
  Fixed.Set_ Fixed.ZeroBloomFilter (list_byte_of_string "test") =
  Fixed.Set_ Fixed.ZeroBloomFilter (list_byte_of_string "tset").
Proof.
  apply fixed_permutation_invariant. simpl. apply perm_skip, perm_swap.
Defined.

(** X6. The collection's [Test] never answers [true] for a value that is
    not in its array, whatever the state of its filter: a [true] always
    comes from the exact scan. *)
Theorem collection_test_sound :
  (forall (a : Sparse.ArrayWithBloomFilter) (v : string),
      Sparse.ArrayTest a v = true -> In v (Sparse.array a)) /\
  (forall (a : Fixed.ArrayWithBloomFilter) (v : string),
      Fixed.ArrayTest a v = Some true -> In v (Fixed.array a)).
Proof.
  split.
  - intros a v. unfold Sparse.ArrayTest.
    destruct (Sparse.Test _ _); simpl; [|done]. apply SparseFacts.scan_In.
  - intros a v. unfold Fixed.ArrayTest.
    destruct (Fixed.Test _ _) as [[]|]; simpl; try done.
    intros H; inversion H as [H']. by apply SparseFacts.scan_In.
Qed.

Lemma collection_test_sound_witness :
  In "a" (Sparse.array (Sparse.mkArray ["a"] (Sparse.mkBloomFilter ∅))) \/
  Sparse.ArrayTest (Sparse.mkArray ["a"] (Sparse.mkBloomFilter ∅)) "a" = false.
Proof.
  destruct (Sparse.ArrayTest (Sparse.mkArray ["a"] (Sparse.mkBloomFilter ∅)) "a") eqn:E.
  - left. exact (proj1 collection_test_sound _ _ E).
  - right. reflexivity.
Defined.

Module SparseMore.
Import Sparse.

Lemma Set_all_bits (f : BloomFilter) (ds : list (list byte)) (p : Z) :
  p ∈ bits (Set_all f ds) <->
  p ∈ bits f \/ exists d, In d ds /\ p ∈ sparse_positions d.
Proof.
  revert f; induction ds as [|d ds IH]; intros f; simpl.
  - split; [tauto|]. intros [H|(? & [] & _)]; exact H.
  - rewrite IH, SparseFacts.Set_bits, elem_of_union, elem_of_list_to_set.
    change (getPositions f d) with (sparse_positions d). split.
    + intros [[H|H]|(d' & Hd' & H)]; [right; eauto|left; exact H|right; eauto].
    + intros [H|(d' & [<-|Hd'] & H)]; [left; right; exact H|left; left; exact H|right; eauto].
Qed.

Lemma BloomFilter_eq (f g : BloomFilter) : bits f = bits g -> f = g.
Proof. destruct f, g; simpl; intros ->; reflexivity. Qed.

End SparseMore.

(** X7. The murmur3 filter after [Set] calls depends only on which inputs
    were set: neither their order nor repetitions matter. *)
Theorem sparse_set_all_order_free (f : Sparse.BloomFilter) (ds ds' : list (list byte)) :
  (forall d, In d ds <-> In d ds') ->
  Sparse.Set_all f ds = Sparse.Set_all f ds'.
Proof.
  intros Hsame. apply SparseMore.BloomFilter_eq. apply leibniz_equiv, set_equiv. intros p.
  rewrite !SparseMore.Set_all_bits. split.
  - intros [H|(d & Hd & H)]; [left; exact H|right; exists d; split; [apply Hsame, Hd|exact H]].
  - intros [H|(d & Hd & H)]; [left; exact H|right; exists d; split; [apply Hsame, Hd|exact H]].
Qed.

Lemma sparse_set_all_order_free_witness :
  Sparse.Set_all Sparse.NewBloomFilter
    [list_byte_of_string "a"; list_byte_of_string "b"; list_byte_of_string "a"] =
  Sparse.Set_all Sparse.NewBloomFilter [list_byte_of_string "b"; list_byte_of_string "a"].
Proof.
  apply sparse_set_all_order_free. intros d; simpl; tauto.
Defined.

(** X8. Two [Set] calls of the fixed-array variant commute: if setting
    [d1] then [d2] returns, setting [d2] then [d1] returns too, with the
    same bits. *)
Theorem fixed_set_commute (f f1 f12 : Fixed.BloomFilter) (d1 d2 : list byte) :
  Fixed.Set_ f d1 = Some f1 -> Fixed.Set_ f1 d2 = Some f12 ->
  exists f2, Fixed.Set_ f d2 = Some f2 /\ Fixed.Set_ f2 d1 = Some f12.
Proof.
  intros (ps1 & Hps1 & Hs1)%FixedFacts.Set_Some (ps2 & Hps2 & Hs2)%FixedFacts.Set_Some.
  change (Fixed.getPositions f1 d2) with (Fixed.getPositions f d2) in Hps2.
  pose proof (FixedFacts.set_loop_length _ _ _ Hs1) as Hl1.
  assert (Hr2 : Forall (fun p => Fixed.in_range (Fixed.bits f) p = true) ps2).
  { eapply Forall_impl; [apply (FixedMore.set_loop_in_range _ _ _ Hs2)|].
    intros p Hp; cbv beta in Hp |- *. by rewrite (FixedMore.in_range_length _ _ p Hl1) in Hp. }
  destruct (FixedMore.set_loop_total _ _ Hr2) as [b2 Hb2].
  pose proof (FixedFacts.set_loop_length _ _ _ Hb2) as Hl2.
  assert (Hr1 : Forall (fun p => Fixed.in_range b2 p = true) ps1).
  { eapply Forall_impl; [apply (FixedMore.set_loop_in_range _ _ _ Hs1)|].
    intros p Hp; cbv beta in Hp |- *. by rewrite (FixedMore.in_range_length _ _ p Hl2). }
  destruct (FixedMore.set_loop_total _ _ Hr1) as [b21 Hb21].
  exists (Fixed.mkBloomFilter b2). split.
  - unfold Fixed.Set_; rewrite Hps2; simpl; rewrite Hb2; reflexivity.
  - unfold Fixed.Set_. change (Fixed.getPositions _ d1) with (Fixed.getPositions f d1).
    rewrite Hps1; simpl; rewrite Hb21; simpl. destruct f12 as [b12]; simpl in *.
    do 2 f_equal. apply list_eq; intros i.
    rewrite (FixedMore.set_loop_lookup _ _ _ Hb21 i), (FixedMore.set_loop_lookup _ _ _ Hb2 i),
      (FixedMore.set_loop_lookup _ _ _ Hs2 i), (FixedMore.set_loop_lookup _ _ _ Hs1 i).
    destruct (Fixed.bits f !! i); simpl; [|reflexivity].
    f_equal. destruct (bool_decide (i ∈ map Z.to_nat ps1)), (bool_decide (i ∈ map Z.to_nat ps2));
      reflexivity.
Qed.

Lemma fixed_set_commute_witness :
  exists f1 f12 f2,
    Fixed.Set_ Fixed.ZeroBloomFilter (list_byte_of_string "test") = Some f1 /\
    Fixed.Set_ f1 (list_byte_of_string "hello") = Some f12 /\
    Fixed.Set_ Fixed.ZeroBloomFilter (list_byte_of_string "hello") = Some f2 /\
    Fixed.Set_ f2 (list_byte_of_string "test") = Some f12.
Proof.
  let v := eval vm_compute in (Fixed.Set_ Fixed.ZeroBloomFilter (list_byte_of_string "test")) in
  match v with Some ?g =>
    assert (H1 : Fixed.Set_ Fixed.ZeroBloomFilter (list_byte_of_string "test") = Some g)
      by (vm_compute; reflexivity);
    let w := eval vm_compute in (Fixed.Set_ g (list_byte_of_string "hello")) in
    match w with Some ?h =>
      assert (H2 : Fixed.Set_ g (list_byte_of_string "hello") = Some h)
        by (vm_compute; reflexivity);
      destruct (fixed_set_commute _ g h _ _ H1 H2) as (f2 & Hf2 & Hf21);
      exists g, h, f2; exact (conj H1 (conj H2 (conj Hf2 Hf21)))
    end
  end.
Defined.

(** X9. Both [main] functions run to the end and print what their labels
    announce: "true" for the inserted "test", "false" for "test2". *)
Theorem main_outputs :
  main_sparse = ["Should be true:"; "true"; "Should be false:"; "false";
                 "Should be true:"; "true"; "Should be false:"; "false"] /\
  main_fixed = (["Should be true:"; "true"; "Should be false:"; "false"], true).
Proof. split; vm_compute; reflexivity. Qed.
